(** * unicode_decoder.py: the escape decoder and the file pipeline

    A shallow embedding of [src/unicode_decoder.py].

    - A Python [str] is a sequence of Unicode code points: [pystr := list N].
    - Exceptions and [print] are made explicit by a small exception/console
      monad [M]: a computation yields [Return v] or [Raise e] together with
      the lines it printed.
    - [re.sub] and [str.replace] are written as the left-to-right scans they
      perform for the three fixed patterns of the program.
    - The directory is a finite map from file names to file nodes. *)

From Stdlib Require Import NArith List String Ascii Bool Lia.
From stdpp Require Import base option list gmap.

Set Default Proof Using "Type".

(* ===================================================================== *)
(** * Python strings *)
(* ===================================================================== *)

(** A code point. [chr] accepts 0 .. 0x10FFFF. *)
Abbreviation char := N (only parsing).
Abbreviation pystr := (list N) (only parsing).

(** ASCII literal of the development as a Python string. *)
Definition py (s : string) : pystr := map N_of_ascii (list_ascii_of_string s).

Definition BACKSLASH : char := 92%N.
Definition SLASH : char := 47%N.
Definition LOWER_U : char := 117%N.
Definition LOWER_X : char := 120%N.
Definition DOT : char := 46%N.
Definition QUESTION : char := 63%N.

(** [s.startswith(p)] *)
Fixpoint startswith (p s : pystr) : bool :=
  match p, s with
  | [], _ => true
  | _ :: _, [] => false
  | a :: p', b :: s' => (a =? b)%N && startswith p' s'
  end.

(** [needle in hay] on strings: substring test. *)
Fixpoint contains (needle hay : pystr) : bool :=
  startswith needle hay ||
  match hay with
  | [] => false
  | _ :: t => contains needle t
  end.

(** [a == b] on strings: comparison by value. *)
Definition str_eq (a b : pystr) : bool := bool_decide (a = b).

(* ===================================================================== *)
(** * Exceptions and console output *)
(* ===================================================================== *)

Inductive exn : Type :=
| ValueError (msg : string)
| OSError (msg : string)
| RuntimeError (msg : string).

(** Lines the program prints that the claims talk about. *)
Inductive line : Type :=
| WarnUnicode (e : exn)          (* the warning of the first pass, with {e}  *)
| WarnHex (e : exn)              (* the warning of the second pass, with {e} *)
| ReportSkip                     (* "  [SKIP] ..."                       *)
| ReportOk (name : pystr) (original_size new_size : N)  (* "  [OK] ..." and the size line *)
| ReportError (e : exn)          (* "  [ERROR] ...: {e}"                 *)
| Summary (processed skipped errors : nat).  (* the three final counts *)

Inductive outcome (A : Type) : Type :=
| Return (a : A)
| Raise (e : exn).
Arguments Return {A} a.
Arguments Raise {A} e.

(** A computation: what it printed, and how it ended. *)
Definition M (A : Type) : Type := (list line * outcome A)%type.

Definition ret {A} (a : A) : M A := ([], Return a).
Definition raise {A} (e : exn) : M A := ([], Raise e).
Definition print (l : line) : M unit := ([l], Return tt).

Definition bind {A B} (m : M A) (k : A -> M B) : M B :=
  match m with
  | (out, Return a) => let '(out', r) := k a in (out ++ out', r)
  | (out, Raise e) => (out, Raise e)
  end.

(** [try: body  except Exception as e: handler(e)] (also the bare
    [except:], every exception of the model being an [Exception]). *)
Definition try_except {A} (body : M A) (handler : exn -> M A) : M A :=
  match body with
  | (out, Return a) => (out, Return a)
  | (out, Raise e) => let '(out', r) := handler e in (out ++ out', r)
  end.

Notation "'let!' x ':=' m 'in' k" := (bind m (fun x => k))
  (at level 10, x name, m at level 100, k at level 200).
Notation "'do!' m 'in' k" := (bind m (fun _ => k))
  (at level 10, m at level 100, k at level 200).

(* ===================================================================== *)
(** * Hexadecimal digits, [int(_, 16)] and [chr] *)
(* ===================================================================== *)

(** The regular-expression class [[0-9a-fA-F]]. *)
Definition in_hex_class (c : char) : bool :=
  ((48 <=? c) && (c <=? 57) || (97 <=? c) && (c <=? 102) || (65 <=? c) && (c <=? 70))%N.

(** Value of one digit for [int(_, 16)]; [None] is an invalid literal. *)
Definition hex_digit_value (c : char) : option N :=
  if ((48 <=? c) && (c <=? 57))%N then Some (c - 48)%N
  else if ((97 <=? c) && (c <=? 102))%N then Some (c - 87)%N
  else if ((65 <=? c) && (c <=? 70))%N then Some (c - 55)%N
  else None.

Fixpoint int16_from (acc : N) (digits : pystr) : option N :=
  match digits with
  | [] => Some acc
  | d :: rest =>
    match hex_digit_value d with
    | Some v => int16_from (16 * acc + v)%N rest
    | None => None
    end
  end.

(** [int(hex_val, 16)] on a string of plain hexadecimal digits; anything
    else (the empty string included) is a [ValueError]. *)
Definition int16 (hex_val : pystr) : M N :=
  match hex_val with
  | [] => raise (ValueError "invalid literal for int() with base 16")
  | _ :: _ =>
    match int16_from 0%N hex_val with
    | Some n => ret n
    | None => raise (ValueError "invalid literal for int() with base 16")
    end
  end.

(** [chr(n)]: a one-character string, [ValueError] above 0x10FFFF. *)
Definition chr (n : N) : M pystr :=
  if (n <=? 1114111)%N then ret [n]
  else raise (ValueError "chr() arg not in range(0x110000)").

(* ===================================================================== *)
(** * The replacement callbacks and the three passes *)
(* ===================================================================== *)

(** A match object: [group(0)] is the whole match, [group(1)] the digits. *)
Record re_match : Type := { group0 : pystr; group1 : pystr }.

(** [replace_unicode], lines 61-67. *)
Definition replace_unicode (m : re_match) : M pystr :=
  try_except
    (let! hex_val := ret (group1 m) in
     let! n := int16 hex_val in
     chr n)
    (fun _ => ret (group0 m)).

(** [replace_hex], lines 76-81. *)
Definition replace_hex (m : re_match) : M pystr :=
  try_except
    (let! hex_val := ret (group1 m) in
     let! n := int16 hex_val in
     chr n)
    (fun _ => ret (group0 m)).

(** [re.sub(r'\\u([0-9a-fA-F]{4})', repl, s)]: leftmost matches, scanned
    left to right, the scan resuming after each match; an exception of
    the callback ends the substitution. *)
Fixpoint re_sub_unicode (repl : re_match -> M pystr) (s : pystr) : M pystr :=
  match s with
  | [] => ret []
  | c :: t =>
    match t with
    | c1 :: h1 :: h2 :: h3 :: h4 :: rest =>
      if ((c =? BACKSLASH)%N && (c1 =? LOWER_U)%N
          && in_hex_class h1 && in_hex_class h2
          && in_hex_class h3 && in_hex_class h4)
      then
        let! r := repl {| group0 := [c; c1; h1; h2; h3; h4];
                          group1 := [h1; h2; h3; h4] |} in
        let! out := re_sub_unicode repl rest in
        ret (r ++ out)
      else
        let! out := re_sub_unicode repl t in ret (c :: out)
    | _ => let! out := re_sub_unicode repl t in ret (c :: out)
    end
  end.

(** [re.sub(r'\\x([0-9a-fA-F]{2})', repl, s)]. *)
Fixpoint re_sub_hex (repl : re_match -> M pystr) (s : pystr) : M pystr :=
  match s with
  | [] => ret []
  | c :: t =>
    match t with
    | c1 :: h1 :: h2 :: rest =>
      if ((c =? BACKSLASH)%N && (c1 =? LOWER_X)%N
          && in_hex_class h1 && in_hex_class h2)
      then
        let! r := repl {| group0 := [c; c1; h1; h2]; group1 := [h1; h2] |} in
        let! out := re_sub_hex repl rest in
        ret (r ++ out)
      else
        let! out := re_sub_hex repl t in ret (c :: out)
    | _ => let! out := re_sub_hex repl t in ret (c :: out)
    end
  end.

(** [s.replace(r'\/', '/')]: every non-overlapping occurrence, from the
    left. It raises nothing. *)
Fixpoint replace_slash (s : pystr) : pystr :=
  match s with
  | [] => []
  | c :: t =>
    match t with
    | c1 :: rest =>
      if ((c =? BACKSLASH)%N && (c1 =? SLASH)%N)
      then SLASH :: replace_slash rest
      else c :: replace_slash t
    | [] => [c]
    end
  end.

(** The body of [decode_unicode_escapes], lines 50-94, for any behaviour
    of the two [re.sub] calls that its [try] blocks guard. *)
Definition decode_unicode_escapes_with
    (re_sub_u re_sub_x : pystr -> M pystr) (text : pystr) : M pystr :=
  let decoded := text in
  (* 1. the four-digit escapes *)
  let! decoded :=
    (if contains [BACKSLASH; LOWER_U] text
     then try_except (re_sub_u decoded)
                     (fun e => do! print (WarnUnicode e) in ret decoded)
     else ret decoded) in
  (* 2. the two-digit escapes *)
  let! decoded :=
    (if contains [BACKSLASH; LOWER_X] decoded
     then try_except (re_sub_x decoded)
                     (fun e => do! print (WarnHex e) in ret decoded)
     else ret decoded) in
  (* 3. escaped slashes *)
  let! decoded :=
    ret (if contains [BACKSLASH; SLASH] decoded
         then replace_slash decoded
         else decoded) in
  ret decoded.

(** [decode_unicode_escapes], with the two substitutions of the source. *)
Definition decode_unicode_escapes : pystr -> M pystr :=
  decode_unicode_escapes_with (re_sub_unicode replace_unicode)
                              (re_sub_hex replace_hex).

(** The change flag of [process_file], line 132: comparison by value. *)
Definition changed (content decoded_content : pystr) : bool :=
  negb (str_eq decoded_content content).

(* ===================================================================== *)
(** * The transformation as the specification words it *)
(* ===================================================================== *)

(** "Every occurrence of a pattern is replaced by a single character":
    [occurrence s] tells whether the pattern occurs at the head of [s],
    and then gives the length of the occurrence and the character that
    replaces it. Occurrences are taken from the left and do not overlap:
    after one of length [n] the next [n - 1] characters are dropped. *)
Section ReplaceEvery.

Variable occurrence : pystr -> option (nat * char).

Fixpoint replace_every_from (skip : nat) (s : pystr) : pystr :=
  match s with
  | [] => []
  | c :: t =>
    match skip with
    | S k => replace_every_from k t
    | O =>
      match occurrence s with
      | Some (n, r) => r :: replace_every_from (Nat.pred n) t
      | None => c :: replace_every_from 0 t
      end
    end
  end.

Definition replace_every : pystr -> pystr := replace_every_from 0.

End ReplaceEvery.

(** A hexadecimal digit, case-insensitively. *)
Definition ascii_lower (c : char) : char :=
  if ((65 <=? c) && (c <=? 90))%N then (c + 32)%N else c.

Definition is_hex_digit (c : char) : bool :=
  let l := ascii_lower c in
  ((48 <=? l) && (l <=? 57) || (97 <=? l) && (l <=? 102))%N.

Definition digit_value (c : char) : N :=
  let l := ascii_lower c in
  if (l <=? 57)%N then (l - 48)%N else (l - 87)%N.

(** The digits read as a hexadecimal number, most significant first. *)
Definition hex_value (digits : pystr) : N :=
  fold_left (fun acc d => (16 * acc + digit_value d)%N) digits 0%N.

(** Backslash, [marker], then exactly [k] hexadecimal digits. *)
Definition hex_escape_at (marker : char) (k : nat) (s : pystr)
  : option (nat * char) :=
  match s with
  | b :: m :: rest =>
    let digits := take k rest in
    if (b =? BACKSLASH)%N && (m =? marker)%N
       && (length digits =? k)%nat && forallb is_hex_digit digits
    then Some (2 + k, hex_value digits)
    else None
  | _ => None
  end.

(** The two-character sequence backslash, slash. *)
Definition escaped_slash_at (s : pystr) : option (nat * char) :=
  if startswith [BACKSLASH; SLASH] s then Some (2, SLASH) else None.

Definition spec_unicode_pass : pystr -> pystr :=
  replace_every (hex_escape_at LOWER_U 4).
Definition spec_hex_pass : pystr -> pystr :=
  replace_every (hex_escape_at LOWER_X 2).
Definition spec_slash_pass : pystr -> pystr :=
  replace_every escaped_slash_at.

(** The three passes, in the fixed order. *)
Definition spec_decode (s : pystr) : pystr :=
  spec_slash_pass (spec_hex_pass (spec_unicode_pass s)).

(* ===================================================================== *)
(** * The directory and the file operations *)
(* ===================================================================== *)

(** [name.rfind(c)]; [None] stands for -1. *)
Fixpoint rfind (c : char) (name : pystr) : option nat :=
  match name with
  | [] => None
  | x :: t =>
    match rfind c t with
    | Some i => Some (S i)
    | None => if (x =? c)%N then Some 0%nat else None
    end
  end.

(** [PurePath.suffix] and [PurePath.stem] of pathlib, on the final path
    component: [i = name.rfind('.')], and the name splits at [i] when
    [0 < i < len(name) - 1]. *)
Definition splits_at (name : pystr) : option nat :=
  match rfind DOT name with
  | Some i => if (0 <? i)%nat && (i <? length name - 1)%nat then Some i else None
  | None => None
  end.

Definition suffix (name : pystr) : pystr :=
  match splits_at name with
  | Some i => drop i name
  | None => []
  end.

Definition stem (name : pystr) : pystr :=
  match splits_at name with
  | Some i => take i name
  | None => name
  end.

(** [str.lower()] as far as a comparison with an ASCII string can tell:
    A-Z and the Kelvin sign are the characters with an ASCII lower case. *)
Definition lower_char (c : char) : char :=
  if ((65 <=? c) && (c <=? 90))%N then (c + 32)%N
  else if (c =? 8490)%N then 107%N
  else c.
Definition lower (s : pystr) : pystr := map lower_char s.

Definition TEXT_EXTENSIONS : list pystr :=
  map py
    [".txt"; ".json"; ".log"; ".xml"; ".csv"; ".html"; ".htm";
     ".js"; ".jsx"; ".ts"; ".tsx"; ".py"; ".java"; ".c"; ".cpp";
     ".h"; ".cs"; ".php"; ".rb"; ".go"; ".rs"; ".swift"; ".kt";
     ".md"; ".markdown"; ".yaml"; ".yml"; ".ini"; ".cfg"; ".conf";
     ".sql"; ".sh"; ".bat"; ".ps1"; ".css"; ".scss"; ".sass"; ".less"]%string.

(** The marker that [main] looks for in a stem, and that [process_file]
    puts into the name of its output. *)
Definition DECODED_MARKER : pystr := py "_decoded".

(** A file of the working directory, as far as the program observes it:
    what detecting its encoding and reading it as text yields (a string,
    or the exception raised on the way), its size in bytes, and whether
    its first 512 bytes have no null byte and decode as UTF-8. *)
Record file : Type := {
  read_text : outcome pystr;
  getsize : N;
  sniffs_as_text : bool
}.

(** The working directory; [write_error] is the exception that opening a
    file for writing raises there, if any. *)
Record world : Type := {
  files : gmap (list N) file;
  write_error : option exn
}.

(** Bytes of one character in UTF-8 (a lone surrogate is written as
    a question mark by [errors='replace']). *)
Definition is_surrogate (c : char) : bool := ((55296 <=? c) && (c <=? 57343))%N.

Definition utf8_replace (text : pystr) : pystr :=
  map (fun c => if is_surrogate c then QUESTION else c) text.

Definition utf8_width (c : char) : N :=
  if (c <? 128)%N then 1%N
  else if (c <? 2048)%N then 2%N
  else if (c <? 65536)%N then 3%N
  else 4%N.

Definition utf8_size (text : pystr) : N :=
  fold_right (fun c n => (utf8_width c + n)%N) 0%N text.

(** The check of [is_text_file] on the first [budget] bytes of a UTF-8
    file holding [text]: no null byte, and no character cut in two. *)
Fixpoint sniff_utf8 (budget : N) (text : pystr) : bool :=
  match text with
  | [] => true
  | c :: t =>
    if (budget =? 0)%N then true
    else if (c =? 0)%N then false
    else if (utf8_width c <=? budget)%N then sniff_utf8 (budget - utf8_width c) t
    else false
  end.

(** The file that [open(path, 'w', encoding='utf-8', errors='replace')]
    followed by [f.write(text)] leaves behind. *)
Definition written_file (text : pystr) : file :=
  let stored := utf8_replace text in
  {| read_text := Return stored;
     getsize := utf8_size stored;
     sniffs_as_text := sniff_utf8 512 stored |}.

(** A computation that also reads and changes the directory. An exception
    keeps the changes made before it. *)
Definition IO (A : Type) : Type := world -> M A * world.

Definition io_ret {A} (a : A) : IO A := fun w => (ret a, w).
Definition io_raise {A} (e : exn) : IO A := fun w => (raise e, w).
Definition io_lift {A} (m : M A) : IO A := fun w => (m, w).
Definition io_print (l : line) : IO unit := io_lift (print l).

Definition io_bind {A B} (m : IO A) (k : A -> IO B) : IO B :=
  fun w =>
    match m w with
    | ((out, Return a), w') =>
      let '((out', r), w'') := k a w' in ((out ++ out', r), w'')
    | ((out, Raise e), w') => ((out, Raise e), w')
    end.

Definition io_try_except {A} (body : IO A) (handler : exn -> IO A) : IO A :=
  fun w =>
    match body w with
    | ((out, Return a), w') => ((out, Return a), w')
    | ((out, Raise e), w') =>
      let '((out', r), w'') := handler e w' in ((out ++ out', r), w'')
    end.

Declare Scope io_scope.
Delimit Scope io_scope with io.
Notation "'let!' x ':=' m 'in' k" := (io_bind m (fun x => k))
  (at level 10, x name, m at level 100, k at level 200) : io_scope.
Notation "'do!' m 'in' k" := (io_bind m (fun _ => k))
  (at level 10, m at level 100, k at level 200) : io_scope.

(** Opening a file for reading and reading all of it. *)
Definition read_file (file_path : pystr) : IO pystr :=
  fun w =>
    match files w !! file_path with
    | Some f =>
      match read_text f with
      | Return content => (ret content, w)
      | Raise e => (raise e, w)
      end
    | None => (raise (OSError "No such file or directory"), w)
    end.

(** [detect_encoding], lines 33-47: it opens and reads the file with each
    candidate encoding and lets everything but a decoding error through;
    which encoding it picks shows in [read_text] only. *)
Definition detect_encoding (file_path : pystr) : IO unit :=
  (do! read_file file_path in io_ret tt)%io.

(** Opening a file for writing and writing [text]. *)
Definition write_file (file_path text : pystr) : IO unit :=
  fun w =>
    match write_error w with
    | Some e => (raise e, w)
    | None =>
      (ret tt, {| files := <[file_path := written_file text]> (files w);
                  write_error := write_error w |})
    end.

(** [os.path.getsize] *)
Definition os_path_getsize (file_path : pystr) : IO N :=
  fun w =>
    match files w !! file_path with
    | Some f => (ret (getsize f), w)
    | None => (raise (OSError "No such file or directory"), w)
    end.

(** The name of the output file, line 141 (same parent directory). *)
Definition new_file_name (file_path : pystr) : pystr :=
  stem file_path ++ DECODED_MARKER ++ suffix file_path.

(** [process_file], lines 118-158. *)
Definition process_file (file_path : pystr) : IO bool :=
  io_try_except
    (do! detect_encoding file_path in
     let! content := read_file file_path in
     let! decoded_content := io_lift (decode_unicode_escapes content) in
     if str_eq decoded_content content then
       do! io_print ReportSkip in
       io_ret false
     else
       let new_file_path := new_file_name file_path in
       do! write_file new_file_path decoded_content in
       let! original_size := os_path_getsize file_path in
       let! new_size := os_path_getsize new_file_path in
       do! io_print (ReportOk new_file_path original_size new_size) in
       io_ret true)%io
    (fun e => do! io_print (ReportError e) in io_ret false)%io.

(** [is_text_file], lines 97-115. *)
Definition is_text_file (w : world) (file_path : pystr) : bool :=
  if bool_decide (lower (suffix file_path) ∈ TEXT_EXTENSIONS) then true
  else
    match files w !! file_path with
    | Some f => sniffs_as_text f
    | None => false
    end.

(** The filter of [main], lines 178-190. *)
Definition selected (script : pystr) (w : world) (file_path : pystr) : bool :=
  if str_eq file_path script then false
  else if contains DECODED_MARKER (stem file_path) then false
  else is_text_file w file_path.

(** The counters of [main]. *)
Record tally : Type := {
  processed_count : nat;
  skipped_count : nat;
  error_count : nat
}.

(** A Python value as [main] tests it with [is True] and [is False]. *)
Inductive pyvalue : Type :=
| PyBool (b : bool)
| PyOther.

(** Lines 210-215. *)
Definition count (result : pyvalue) (t : tally) : tally :=
  match result with
  | PyBool true =>
    {| processed_count := S (processed_count t);
       skipped_count := skipped_count t; error_count := error_count t |}
  | PyBool false =>
    {| processed_count := processed_count t;
       skipped_count := S (skipped_count t); error_count := error_count t |}
  | PyOther =>
    {| processed_count := processed_count t;
       skipped_count := skipped_count t; error_count := S (error_count t) |}
  end.

(** The loop of [main], lines 205-217. *)
Fixpoint process_all (files_to_process : list pystr) (t : tally) : IO tally :=
  match files_to_process with
  | [] => io_ret t
  | file_path :: rest =>
    (let! result := process_file file_path in
     process_all rest (count (PyBool result) t))%io
  end.

(** [main], lines 161-226, for a script named [script]; the directory is
    listed once, before any file is processed. *)
Definition main (script : pystr) : IO unit :=
  fun w =>
    let all_files := (map_to_list (files w)).*1 in
    let files_to_process := filter (fun f => selected script w f = true) all_files in
    match files_to_process with
    | [] => (ret tt, w)
    | _ :: _ =>
      (let! t := process_all files_to_process
                   {| processed_count := 0; skipped_count := 0; error_count := 0 |} in
       io_print (Summary (processed_count t) (skipped_count t) (error_count t)))%io w
    end.

(* ===================================================================== *)
(** * Notions the properties are stated with *)
(* ===================================================================== *)

(** The three escape families, the pass of the program for each, and
    what an occurrence of each is. *)
Inductive family : Type := UnicodeEscape | HexEscape | EscapedSlash.

Definition pass_of (f : family) : pystr -> M pystr :=
  match f with
  | UnicodeEscape => re_sub_unicode replace_unicode
  | HexEscape => re_sub_hex replace_hex
  | EscapedSlash => fun s => ret (replace_slash s)
  end.

Definition occurrence_of (f : family) : pystr -> option (nat * char) :=
  match f with
  | UnicodeEscape => hex_escape_at LOWER_U 4
  | HexEscape => hex_escape_at LOWER_X 2
  | EscapedSlash => escaped_slash_at
  end.

(** The decoder leaves [span] in place: wherever [span] stands in the
    input, the output is the decoded text before it, [span] itself, and
    the decoded text after it. *)
Definition passes_through (span : pystr) : Prop :=
  forall a b, exists a' b',
    decode_unicode_escapes a = ret a' /\
    decode_unicode_escapes b = ret b' /\
    decode_unicode_escapes (a ++ span ++ b) = ret (a' ++ span ++ b').

(** The character [r] that replaces [span] is not interpreted again:
    wherever [span] stands in the input, the output is the decoded text
    before it, [r], and the decoded text after it. *)
Definition replaced_independently (span : pystr) (r : char) : Prop :=
  forall a b, exists a' b',
    decode_unicode_escapes a = ret a' /\
    decode_unicode_escapes b = ret b' /\
    decode_unicode_escapes (a ++ span ++ b) = ret (a' ++ r :: b').

(** A literal that [int(_, 16)] and then [chr] accept: a non-empty run of
    hexadecimal digits with a value up to 0x10FFFF. *)
Definition valid_hex_literal (digits : pystr) : bool :=
  match digits with
  | [] => false
  | _ :: _ =>
    forallb is_hex_digit digits && (hex_value digits <=? 1114111)%N
  end.

(** The text [t] starts with [k] hexadecimal digits. *)
Definition hex_digits_follow (k : nat) (t : pystr) : bool :=
  (length (take k t) =? k)%nat && forallb is_hex_digit (take k t).

(** [esc "u0041"] is the six-character text backslash, u, 0, 0, 4, 1. *)
Definition esc (s : string) : pystr := BACKSLASH :: py s.


(* ===================================================================== *)
(** * Sample runs of the decoder *)
(* ===================================================================== *)

Example decode_u0041 : decode_unicode_escapes (esc "u0041") = ret (py "A").
Proof. vm_compute. reflexivity. Qed.
Example decode_x41 : decode_unicode_escapes (esc "x41") = ret (py "A").
Proof. vm_compute. reflexivity. Qed.
Example decode_cafe :
  decode_unicode_escapes (py "caf" ++ esc "u00e9") = ret (py "caf" ++ [233%N]).
Proof. vm_compute. reflexivity. Qed.
Example decode_slash :
  decode_unicode_escapes (py "a" ++ esc "/b") = ret (py "a/b").
Proof. vm_compute. reflexivity. Qed.

(* ===================================================================== *)
(** * Properties of [replace_every] *)
(* ===================================================================== *)

Lemma replace_every_from_drop occurrence k s :
  replace_every_from occurrence k s = replace_every occurrence (drop k s).
Proof.
  revert k. induction s as [|c t IH]; intros [|k]; try reflexivity.
  simpl. apply IH.
Qed.

Lemma replace_every_cons occurrence c t :
  replace_every occurrence (c :: t) =
  match occurrence (c :: t) with
  | Some (n, r) => r :: replace_every occurrence (drop (Nat.pred n) t)
  | None => c :: replace_every occurrence t
  end.
Proof.
  unfold replace_every at 1. simpl.
  destruct (occurrence (c :: t)) as [[n r]|]; [|reflexivity].
  now rewrite replace_every_from_drop.
Qed.

Lemma replace_every_nil occurrence : replace_every occurrence [] = [].
Proof. reflexivity. Qed.

(** Induction on a text where the hypothesis is available for every
    shorter text, as the scans skip whole occurrences. *)
Lemma pystr_length_ind (P : pystr -> Prop) :
  (forall s, (forall s', (length s' < length s)%nat -> P s') -> P s) ->
  forall s, P s.
Proof.
  intros step s.
  assert (H : forall n s, (length s < n)%nat -> P s).
  { induction n as [|n IHn]; intros s' Hlt; [lia|].
    apply step. intros s'' Hlt'. apply IHn. lia. }
  apply (H (S (length s))). lia.
Qed.

Section EscapePattern.

(** A pattern that starts with a backslash, has no backslash elsewhere,
    and begins with the two characters the guard of its pass looks for. *)
Variable occurrence : pystr -> option (nat * char).
Variable marker : char.

Hypothesis occurrence_span : forall s n r,
  occurrence s = Some (n, r) ->
  exists t, s = BACKSLASH :: t /\ (0 < n <= S (length t))%nat.
Hypothesis occurrence_sync : forall a b,
  a <> [] -> occurrence (a ++ BACKSLASH :: b) = occurrence a.
Hypothesis occurrence_marker : forall s n r,
  occurrence s = Some (n, r) -> startswith [BACKSLASH; marker] s = true.

Lemma replace_every_literal c t :
  c <> BACKSLASH ->
  replace_every occurrence (c :: t) = c :: replace_every occurrence t.
Proof using occurrence_span.
  intros Hc. rewrite replace_every_cons.
  destruct (occurrence (c :: t)) as [[n r]|] eqn:E; [|reflexivity].
  destruct (occurrence_span _ _ _ E) as (t' & Heq & _). congruence.
Qed.

Lemma replace_every_no_backslash s :
  Forall (fun c => c <> BACKSLASH) s -> replace_every occurrence s = s.
Proof using occurrence_span.
  induction 1 as [|c t Hc _ IH]; [reflexivity|].
  rewrite replace_every_literal by assumption. now rewrite IH.
Qed.

Lemma replace_every_literals w s :
  Forall (fun c => c <> BACKSLASH) w ->
  replace_every occurrence (w ++ s) = w ++ replace_every occurrence s.
Proof using occurrence_span.
  induction 1 as [|c t Hc _ IH]; [reflexivity|].
  simpl. rewrite replace_every_literal by assumption. now rewrite IH.
Qed.

(** A backslash is a point where the scan starts afresh. *)
Lemma replace_every_sync a b :
  replace_every occurrence (a ++ BACKSLASH :: b) =
  replace_every occurrence a ++ replace_every occurrence (BACKSLASH :: b).
Proof using occurrence_span occurrence_sync.
  induction a as [a IH] using pystr_length_ind.
  destruct a as [|c t]; [reflexivity|].
  change ((c :: t) ++ BACKSLASH :: b) with (c :: (t ++ BACKSLASH :: b)).
  rewrite (replace_every_cons occurrence c (t ++ BACKSLASH :: b)),
          (replace_every_cons occurrence c t).
  change (c :: (t ++ BACKSLASH :: b)) with ((c :: t) ++ BACKSLASH :: b).
  rewrite occurrence_sync by discriminate.
  destruct (occurrence (c :: t)) as [[n r]|] eqn:E.
  - destruct (occurrence_span _ _ _ E) as (t' & Heq & Hn).
    injection Heq as _ <-.
    rewrite drop_app_le by lia.
    simpl. f_equal. apply IH. rewrite length_drop. simpl. lia.
  - simpl. f_equal. apply IH. simpl. lia.
Qed.

(** No pass lengthens the text. *)
Lemma replace_every_length s :
  (length (replace_every occurrence s) <= length s)%nat.
Proof using occurrence_span.
  induction s as [s IH] using pystr_length_ind.
  destruct s as [|c t]; [reflexivity|].
  rewrite replace_every_cons.
  destruct (occurrence (c :: t)) as [[n r]|] eqn:E; simpl.
  - assert (H := IH (drop (Nat.pred n) t)).
    rewrite length_drop in H. simpl in H. lia.
  - assert (H := IH t). simpl in H. lia.
Qed.

(** Where the guard of the pass finds nothing, the pass changes nothing. *)
Lemma replace_every_unguarded s :
  contains [BACKSLASH; marker] s = false -> replace_every occurrence s = s.
Proof using occurrence_marker.
  induction s as [|c t IH]; [reflexivity|].
  intros H. change (contains [BACKSLASH; marker] (c :: t))
    with (startswith [BACKSLASH; marker] (c :: t)
          || contains [BACKSLASH; marker] t) in H.
  apply orb_false_iff in H as [Hhere Hrest].
  rewrite replace_every_cons.
  destruct (occurrence (c :: t)) as [[n r]|] eqn:E.
  - apply occurrence_marker in E. congruence.
  - now rewrite IH.
Qed.

(** An occurrence is replaced by its character, and the scan resumes
    on the input text right after it: the character just produced is
    not scanned again by this pass. *)
Lemma replace_every_occurrence a s n r :
  occurrence s = Some (n, r) ->
  replace_every occurrence (a ++ s) =
  replace_every occurrence a ++ r :: replace_every occurrence (drop n s).
Proof using occurrence_span occurrence_sync.
  intros E. destruct (occurrence_span _ _ _ E) as (t & -> & Hn).
  rewrite replace_every_sync, replace_every_cons, E.
  destruct n; [lia | reflexivity].
Qed.

(** A backslash that starts no occurrence stays, with the backslash-free
    text after it, and the scan goes on behind them. *)
Lemma replace_every_inert a c w b :
  c <> BACKSLASH -> Forall (fun x => x <> BACKSLASH) w ->
  occurrence (BACKSLASH :: c :: w ++ b) = None ->
  replace_every occurrence (a ++ BACKSLASH :: c :: w ++ b) =
  replace_every occurrence a ++ BACKSLASH :: c :: w ++ replace_every occurrence b.
Proof using occurrence_span occurrence_sync.
  intros Hc Hw Hnone.
  rewrite replace_every_sync, replace_every_cons, Hnone.
  rewrite replace_every_literal by assumption.
  now rewrite replace_every_literals.
Qed.

End EscapePattern.

(* ===================================================================== *)
(** * The three patterns are escape patterns *)
(* ===================================================================== *)

Lemma is_hex_digit_backslash : is_hex_digit BACKSLASH = false.
Proof. reflexivity. Qed.

Lemma forallb_hex_no_backslash ds :
  forallb is_hex_digit ds = true -> Forall (fun c => c <> BACKSLASH) ds.
Proof.
  induction ds as [|d ds IH]; simpl; intros H; constructor.
  - apply andb_true_iff in H as [Hd _]. intros ->.
    rewrite is_hex_digit_backslash in Hd. discriminate.
  - apply IH. now apply andb_true_iff in H as [_ H].
Qed.

(** What an occurrence of a hexadecimal escape looks like. *)
Lemma hex_escape_at_Some marker k s n r :
  hex_escape_at marker k s = Some (n, r) ->
  exists digits rest,
    s = BACKSLASH :: marker :: digits ++ rest /\ length digits = k /\
    forallb is_hex_digit digits = true /\
    n = (2 + k)%nat /\ r = hex_value digits.
Proof.
  destruct s as [|b [|m rest]]; try discriminate. unfold hex_escape_at.
  destruct (N.eqb_spec b BACKSLASH) as [->|]; [|discriminate].
  destruct (N.eqb_spec m marker) as [->|]; [|discriminate].
  destruct (Nat.eqb_spec (length (take k rest)) k) as [Hlen|]; [|discriminate].
  destruct (forallb is_hex_digit (take k rest)) eqn:Hhex; [|discriminate].
  simpl. intros [= <- <-].
  exists (take k rest), (drop k rest). rewrite take_drop. eauto.
Qed.

Lemma hex_escape_at_intro marker k digits rest :
  length digits = k -> forallb is_hex_digit digits = true ->
  hex_escape_at marker k (BACKSLASH :: marker :: digits ++ rest)
  = Some ((2 + k)%nat, hex_value digits).
Proof.
  intros Hlen Hhex. unfold hex_escape_at.
  rewrite take_app_length' by (symmetry; assumption).
  rewrite Hlen, Hhex, !N.eqb_refl, Nat.eqb_refl. reflexivity.
Qed.

Lemma hex_escape_at_span marker k s n r :
  hex_escape_at marker k s = Some (n, r) ->
  exists t, s = BACKSLASH :: t /\ (0 < n <= S (length t))%nat.
Proof.
  intros H. apply hex_escape_at_Some in H
    as (digits & rest & -> & Hlen & _ & -> & _).
  eexists; split; [reflexivity|]. simpl. rewrite length_app. lia.
Qed.

Lemma hex_escape_at_marker marker k s n r :
  hex_escape_at marker k s = Some (n, r) ->
  startswith [BACKSLASH; marker] s = true.
Proof.
  intros H. apply hex_escape_at_Some in H as (digits & rest & -> & _).
  simpl. now rewrite !N.eqb_refl.
Qed.

Lemma hex_escape_at_sync marker k a b :
  marker <> BACKSLASH -> a <> [] ->
  hex_escape_at marker k (a ++ BACKSLASH :: b) = hex_escape_at marker k a.
Proof.
  intros Hm Ha.
  destruct (hex_escape_at marker k a) as [[n r]|] eqn:Ea.
  - apply hex_escape_at_Some in Ea as (digits & rest & -> & Hlen & Hhex & -> & ->).
    simpl. rewrite <- app_assoc. now apply hex_escape_at_intro.
  - destruct (hex_escape_at marker k (a ++ BACKSLASH :: b)) as [[n r]|] eqn:Eab;
      [|reflexivity].
    exfalso.
    apply hex_escape_at_Some in Eab as (digits & rest & Heq & Hlen & Hhex & _).
    destruct a as [|c0 [|c1 a']]; [congruence| |].
    + simpl in Heq. congruence.
    + simpl in Heq. injection Heq as -> -> Heq.
      assert (Hpre : exists rest', a' = digits ++ rest').
      { apply forallb_hex_no_backslash in Hhex.
        clear Ea Hlen Ha. revert a' Heq.
        induction Hhex as [|d ds Hd _ IH]; intros a' Heq; [now exists a'|].
        destruct a' as [|x a'']; simpl in Heq; [congruence|].
        injection Heq as -> Heq. destruct (IH _ Heq) as [rest' ->].
        now exists rest'. }
      destruct Hpre as [rest' ->].
      rewrite hex_escape_at_intro in Ea by assumption. discriminate.
Qed.

Lemma escaped_slash_at_Some s n r :
  escaped_slash_at s = Some (n, r) ->
  exists rest, s = BACKSLASH :: SLASH :: rest /\ n = 2%nat /\ r = SLASH.
Proof.
  unfold escaped_slash_at. destruct s as [|b [|m rest]]; cbn [startswith].
  - discriminate.
  - rewrite andb_false_r. discriminate.
  - destruct (N.eqb_spec BACKSLASH b) as [<-|]; [|discriminate].
    destruct (N.eqb_spec SLASH m) as [<-|]; [|discriminate].
    cbn [andb]. intros [= <- <-]. eauto.
Qed.

Lemma escaped_slash_at_span s n r :
  escaped_slash_at s = Some (n, r) ->
  exists t, s = BACKSLASH :: t /\ (0 < n <= S (length t))%nat.
Proof.
  intros H. apply escaped_slash_at_Some in H as (rest & -> & -> & _).
  eexists; split; [reflexivity|]. simpl. lia.
Qed.

Lemma escaped_slash_at_marker s n r :
  escaped_slash_at s = Some (n, r) -> startswith [BACKSLASH; SLASH] s = true.
Proof.
  intros H. now apply escaped_slash_at_Some in H as (rest & -> & _).
Qed.

Lemma escaped_slash_at_sync a b :
  a <> [] -> escaped_slash_at (a ++ BACKSLASH :: b) = escaped_slash_at a.
Proof.
  intros Ha. destruct a as [|c0 [|c1 a']]; [congruence| |reflexivity].
  unfold escaped_slash_at. cbn [app startswith].
  destruct (N.eqb_spec BACKSLASH c0) as [<-|]; reflexivity.
Qed.

Lemma LOWER_U_not_backslash : LOWER_U <> BACKSLASH.
Proof. discriminate. Qed.
Lemma LOWER_X_not_backslash : LOWER_X <> BACKSLASH.
Proof. discriminate. Qed.

(* ===================================================================== *)
(** * The code's passes compute the specification's passes *)
(* ===================================================================== *)

Lemma bind_ret_l {A B} (a : A) (k : A -> M B) : bind (ret a) k = k a.
Proof. unfold bind, ret. now destruct (k a). Qed.

Lemma try_except_ret {A} (a : A) (h : exn -> M A) : try_except (ret a) h = ret a.
Proof. reflexivity. Qed.

Lemma in_hex_class_spec c : in_hex_class c = is_hex_digit c.
Proof.
  unfold in_hex_class, is_hex_digit, ascii_lower.
  destruct (N.leb_spec 65 c), (N.leb_spec c 90); cbn [andb];
  repeat match goal with
         | |- context [(?a <=? ?b)%N] => destruct (N.leb_spec a b)
         end; cbn [andb orb]; try reflexivity; lia.
Qed.

Lemma hex_digit_value_spec c :
  is_hex_digit c = true ->
  hex_digit_value c = Some (digit_value c) /\ (digit_value c <= 15)%N.
Proof.
  unfold hex_digit_value, is_hex_digit, digit_value, ascii_lower.
  destruct (N.leb_spec 65 c), (N.leb_spec c 90); cbn [andb];
  repeat match goal with
         | |- context [(?a <=? ?b)%N] => destruct (N.leb_spec a b)
         end; cbn [andb orb]; intros Hhex; try discriminate Hhex;
    (split; [f_equal|]); lia.
Qed.

Lemma int16_from_spec ds :
  forallb is_hex_digit ds = true ->
  forall acc,
    int16_from acc ds
    = Some (fold_left (fun a d => (16 * a + digit_value d)%N) ds acc).
Proof.
  induction ds as [|d ds IH]; intros H acc; [reflexivity|].
  cbn [forallb] in H. apply andb_true_iff in H as [Hd Hds].
  cbn [int16_from fold_left].
  destruct (hex_digit_value_spec d Hd) as [-> _]. now apply IH.
Qed.

Lemma int16_spec ds :
  ds <> [] -> forallb is_hex_digit ds = true -> int16 ds = ret (hex_value ds).
Proof.
  intros Hne Hhex. destruct ds as [|d ds]; [congruence|].
  unfold int16. now rewrite int16_from_spec.
Qed.

(** The digits of a match are hexadecimal, so neither [int] nor [chr]
    raises and the callbacks return one character. *)
Lemma callback_body_spec ds :
  ds <> [] -> forallb is_hex_digit ds = true ->
  (hex_value ds <= 1114111)%N ->
  (let! hex_val := ret ds in let! n := int16 hex_val in chr n)
  = ret [hex_value ds].
Proof.
  intros Hne Hhex Hle. rewrite bind_ret_l, int16_spec, bind_ret_l by assumption.
  unfold chr. now apply N.leb_le in Hle as ->.
Qed.

Lemma hex_value_4 h1 h2 h3 h4 :
  forallb is_hex_digit [h1; h2; h3; h4] = true ->
  (hex_value [h1; h2; h3; h4] < 65536)%N.
Proof.
  cbn [forallb]. rewrite !andb_true_iff. intros (H1 & H2 & H3 & H4 & _).
  apply hex_digit_value_spec in H1 as [_ ?], H2 as [_ ?], H3 as [_ ?], H4 as [_ ?].
  unfold hex_value. cbn [fold_left]. lia.
Qed.

Lemma hex_value_2 h1 h2 :
  forallb is_hex_digit [h1; h2] = true -> (hex_value [h1; h2] < 256)%N.
Proof.
  cbn [forallb]. rewrite !andb_true_iff. intros (H1 & H2 & _).
  apply hex_digit_value_spec in H1 as [_ ?], H2 as [_ ?].
  unfold hex_value. cbn [fold_left]. lia.
Qed.

Lemma replace_unicode_match g0 h1 h2 h3 h4 :
  forallb is_hex_digit [h1; h2; h3; h4] = true ->
  replace_unicode {| group0 := g0; group1 := [h1; h2; h3; h4] |}
  = ret [hex_value [h1; h2; h3; h4]].
Proof.
  intros H. unfold replace_unicode. cbn [group0 group1].
  rewrite callback_body_spec; [reflexivity|discriminate|assumption|].
  apply hex_value_4 in H. lia.
Qed.

Lemma replace_hex_match g0 h1 h2 :
  forallb is_hex_digit [h1; h2] = true ->
  replace_hex {| group0 := g0; group1 := [h1; h2] |}
  = ret [hex_value [h1; h2]].
Proof.
  intros H. unfold replace_hex. cbn [group0 group1].
  rewrite callback_body_spec; [reflexivity|discriminate|assumption|].
  apply hex_value_2 in H. lia.
Qed.

Lemma hex_escape_at_short marker k s :
  (length s < 2 + k)%nat -> hex_escape_at marker k s = None.
Proof.
  intros Hlen. destruct (hex_escape_at marker k s) as [[n r]|] eqn:E; [|reflexivity].
  apply hex_escape_at_Some in E as (digits & rest & -> & Hk & _).
  simpl in Hlen. rewrite length_app in Hlen. lia.
Qed.

(** The condition the code tests at a candidate position is the
    specification's occurrence test. *)
Lemma hex_escape_at_unicode c c1 h1 h2 h3 h4 rest :
  hex_escape_at LOWER_U 4 (c :: c1 :: h1 :: h2 :: h3 :: h4 :: rest) =
  if ((c =? BACKSLASH)%N && (c1 =? LOWER_U)%N
      && in_hex_class h1 && in_hex_class h2
      && in_hex_class h3 && in_hex_class h4)
  then Some (6%nat, hex_value [h1; h2; h3; h4]) else None.
Proof.
  unfold hex_escape_at. cbn [take length forallb Nat.eqb].
  rewrite !in_hex_class_spec.
  destruct (c =? BACKSLASH)%N, (c1 =? LOWER_U)%N, (is_hex_digit h1),
    (is_hex_digit h2), (is_hex_digit h3), (is_hex_digit h4); reflexivity.
Qed.

Lemma hex_escape_at_hex c c1 h1 h2 rest :
  hex_escape_at LOWER_X 2 (c :: c1 :: h1 :: h2 :: rest) =
  if ((c =? BACKSLASH)%N && (c1 =? LOWER_X)%N
      && in_hex_class h1 && in_hex_class h2)
  then Some (4%nat, hex_value [h1; h2]) else None.
Proof.
  unfold hex_escape_at. cbn [take length forallb Nat.eqb].
  rewrite !in_hex_class_spec.
  destruct (c =? BACKSLASH)%N, (c1 =? LOWER_X)%N, (is_hex_digit h1),
    (is_hex_digit h2); reflexivity.
Qed.

Lemma re_sub_unicode_spec s :
  re_sub_unicode replace_unicode s = ret (spec_unicode_pass s).
Proof.
  unfold spec_unicode_pass.
  induction s as [s IH] using pystr_length_ind.
  destruct s as [|c t]; [reflexivity|].
  rewrite replace_every_cons.
  assert (IHt := IH t ltac:(simpl; lia)).
  destruct t as [|c1 [|h1 [|h2 [|h3 [|h4 rest]]]]];
    try (rewrite hex_escape_at_short by (simpl; lia);
         cbn [re_sub_unicode] in IHt |- *; rewrite IHt, bind_ret_l;
         reflexivity).
  rewrite hex_escape_at_unicode. cbn [re_sub_unicode] in IHt |- *.
  destruct ((c =? BACKSLASH)%N && (c1 =? LOWER_U)%N
            && in_hex_class h1 && in_hex_class h2
            && in_hex_class h3 && in_hex_class h4) eqn:Hcond.
  - rewrite replace_unicode_match, bind_ret_l.
    + rewrite (IH rest) by (simpl; lia). now rewrite bind_ret_l.
    + rewrite !andb_true_iff in Hcond.
      destruct Hcond as (((((_ & _) & H1) & H2) & H3) & H4).
      rewrite !in_hex_class_spec in *. cbn [forallb].
      now rewrite H1, H2, H3, H4.
  - rewrite IHt, bind_ret_l. reflexivity.
Qed.

Lemma re_sub_hex_spec s :
  re_sub_hex replace_hex s = ret (spec_hex_pass s).
Proof.
  unfold spec_hex_pass.
  induction s as [s IH] using pystr_length_ind.
  destruct s as [|c t]; [reflexivity|].
  rewrite replace_every_cons.
  assert (IHt := IH t ltac:(simpl; lia)).
  destruct t as [|c1 [|h1 [|h2 rest]]];
    try (rewrite hex_escape_at_short by (simpl; lia);
         cbn [re_sub_hex] in IHt |- *; rewrite IHt, bind_ret_l;
         reflexivity).
  rewrite hex_escape_at_hex. cbn [re_sub_hex] in IHt |- *.
  destruct ((c =? BACKSLASH)%N && (c1 =? LOWER_X)%N
            && in_hex_class h1 && in_hex_class h2) eqn:Hcond.
  - rewrite replace_hex_match, bind_ret_l.
    + rewrite (IH rest) by (simpl; lia). now rewrite bind_ret_l.
    + rewrite !andb_true_iff in Hcond.
      destruct Hcond as (((_ & _) & H1) & H2).
      rewrite !in_hex_class_spec in *. cbn [forallb].
      now rewrite H1, H2.
  - rewrite IHt, bind_ret_l. reflexivity.
Qed.

Lemma replace_slash_spec s : replace_slash s = spec_slash_pass s.
Proof.
  unfold spec_slash_pass.
  induction s as [s IH] using pystr_length_ind.
  destruct s as [|c t]; [reflexivity|].
  rewrite replace_every_cons.
  destruct t as [|c1 rest].
  - destruct (escaped_slash_at [c]) as [[n r]|] eqn:E; [|reflexivity].
    apply escaped_slash_at_Some in E as (rest & [=] & _).
  - change (replace_slash (c :: c1 :: rest))
      with (if ((c =? BACKSLASH)%N && (c1 =? SLASH)%N)
            then SLASH :: replace_slash rest
            else c :: replace_slash (c1 :: rest)).
    destruct (escaped_slash_at (c :: c1 :: rest)) as [[n r]|] eqn:E.
    + apply escaped_slash_at_Some in E as (rest' & [= -> -> <-] & -> & ->).
      rewrite !N.eqb_refl. cbn [andb Nat.pred drop]. rewrite drop_0.
      f_equal. apply IH. simpl. lia.
    + destruct (N.eqb_spec c BACKSLASH) as [->|];
        [destruct (N.eqb_spec c1 SLASH) as [->|]|];
        [discriminate E| |]; cbn [andb]; f_equal; apply IH; simpl; lia.
Qed.

(** The three specification passes as instances of the escape-pattern
    lemmas. *)
Lemma spec_unicode_pass_unguarded s :
  contains [BACKSLASH; LOWER_U] s = false -> spec_unicode_pass s = s.
Proof.
  apply (replace_every_unguarded _ LOWER_U), hex_escape_at_marker.
Qed.

Lemma spec_hex_pass_unguarded s :
  contains [BACKSLASH; LOWER_X] s = false -> spec_hex_pass s = s.
Proof.
  apply (replace_every_unguarded _ LOWER_X), hex_escape_at_marker.
Qed.

Lemma spec_slash_pass_unguarded s :
  contains [BACKSLASH; SLASH] s = false -> spec_slash_pass s = s.
Proof.
  apply (replace_every_unguarded _ SLASH), escaped_slash_at_marker.
Qed.

(** One run of the decoder: it prints nothing, raises nothing and returns
    the composition of the three passes. *)
Lemma decode_unicode_escapes_run s :
  decode_unicode_escapes s = ret (spec_decode s).
Proof.
  unfold decode_unicode_escapes, decode_unicode_escapes_with, spec_decode.
  assert (H1 : (if contains [BACKSLASH; LOWER_U] s
                then try_except (re_sub_unicode replace_unicode s)
                       (fun e => do! print (WarnUnicode e) in ret s)
                else ret s) = ret (spec_unicode_pass s)).
  { destruct (contains [BACKSLASH; LOWER_U] s) eqn:G.
    - now rewrite re_sub_unicode_spec.
    - now rewrite spec_unicode_pass_unguarded. }
  rewrite H1, bind_ret_l. clear H1.
  set (s1 := spec_unicode_pass s).
  assert (H2 : (if contains [BACKSLASH; LOWER_X] s1
                then try_except (re_sub_hex replace_hex s1)
                       (fun e => do! print (WarnHex e) in ret s1)
                else ret s1) = ret (spec_hex_pass s1)).
  { destruct (contains [BACKSLASH; LOWER_X] s1) eqn:G.
    - now rewrite re_sub_hex_spec.
    - now rewrite spec_hex_pass_unguarded. }
  rewrite H2, bind_ret_l. clear H2.
  set (s2 := spec_hex_pass s1).
  rewrite bind_ret_l. f_equal.
  destruct (contains [BACKSLASH; SLASH] s2) eqn:G.
  - now rewrite replace_slash_spec.
  - now rewrite spec_slash_pass_unguarded.
Qed.

(* ===================================================================== *)
(** * Text that no pass touches *)
(* ===================================================================== *)

Lemma hex_escape_at_other_marker marker k c t :
  c <> marker -> hex_escape_at marker k (BACKSLASH :: c :: t) = None.
Proof.
  intros Hc. destruct (hex_escape_at marker k (BACKSLASH :: c :: t))
    as [[n r]|] eqn:E; [|reflexivity].
  apply hex_escape_at_Some in E as (digits & rest & [= ->] & _). congruence.
Qed.

Lemma escaped_slash_at_other c t :
  c <> SLASH -> escaped_slash_at (BACKSLASH :: c :: t) = None.
Proof.
  intros Hc. destruct (escaped_slash_at (BACKSLASH :: c :: t))
    as [[n r]|] eqn:E; [|reflexivity].
  apply escaped_slash_at_Some in E as (rest & [= ->] & _). congruence.
Qed.

Lemma hex_escape_at_bad_digits marker k w b :
  forallb is_hex_digit (take k w) = false ->
  hex_escape_at marker k (BACKSLASH :: marker :: w ++ b) = None.
Proof.
  intros Hbad. destruct (hex_escape_at marker k (BACKSLASH :: marker :: w ++ b))
    as [[n r]|] eqn:E; [|reflexivity].
  apply hex_escape_at_Some in E as (digits & rest & [= Heq] & Hlen & Hhex & _).
  assert (Htake : take k (w ++ b) = digits).
  { rewrite Heq. now apply take_app_length'. }
  rewrite take_app in Htake. rewrite <- Htake, forallb_app in Hhex.
  apply andb_true_iff in Hhex as [Hhex _]. congruence.
Qed.

(** The whole transformation keeps a backslash, the character after it
    and a backslash-free text [w] behind them where no pattern can start
    at that backslash, whatever follows. *)
Lemma spec_decode_inert a c w b :
  c <> BACKSLASH -> Forall (fun x => x <> BACKSLASH) w ->
  (forall b', hex_escape_at LOWER_U 4 (BACKSLASH :: c :: w ++ b') = None) ->
  (forall b', hex_escape_at LOWER_X 2 (BACKSLASH :: c :: w ++ b') = None) ->
  (forall b', escaped_slash_at (BACKSLASH :: c :: w ++ b') = None) ->
  spec_decode (a ++ BACKSLASH :: c :: w ++ b)
  = spec_decode a ++ BACKSLASH :: c :: w ++ spec_decode b.
Proof.
  intros Hc Hw Hu Hx Hs. unfold spec_decode, spec_unicode_pass, spec_hex_pass,
    spec_slash_pass.
  rewrite (replace_every_inert (hex_escape_at LOWER_U 4));
    [|apply hex_escape_at_span
     |intros; now apply hex_escape_at_sync
     |assumption|assumption|apply Hu].
  rewrite (replace_every_inert (hex_escape_at LOWER_X 2));
    [|apply hex_escape_at_span
     |intros; now apply hex_escape_at_sync
     |assumption|assumption|apply Hx].
  rewrite (replace_every_inert escaped_slash_at);
    [|apply escaped_slash_at_span
     |intros; now apply escaped_slash_at_sync
     |assumption|assumption|apply Hs].
  reflexivity.
Qed.

Lemma spec_decode_length s : (length (spec_decode s) <= length s)%nat.
Proof.
  unfold spec_decode, spec_unicode_pass, spec_hex_pass, spec_slash_pass.
  etransitivity; [apply replace_every_length, escaped_slash_at_span|].
  etransitivity; [apply replace_every_length, hex_escape_at_span|].
  apply replace_every_length, hex_escape_at_span.
Qed.

Lemma spec_decode_no_backslash s :
  Forall (fun c => c <> BACKSLASH) s -> spec_decode s = s.
Proof.
  intros H. unfold spec_decode, spec_unicode_pass, spec_hex_pass, spec_slash_pass.
  rewrite (replace_every_no_backslash (hex_escape_at LOWER_U 4));
    [|apply hex_escape_at_span|assumption].
  rewrite (replace_every_no_backslash (hex_escape_at LOWER_X 2));
    [|apply hex_escape_at_span|assumption].
  now apply replace_every_no_backslash; [apply escaped_slash_at_span|].
Qed.

Lemma str_eq_refl s : str_eq s s = true.
Proof. unfold str_eq. now apply bool_decide_eq_true. Qed.

Lemma changed_spec content decoded_content :
  changed content decoded_content = true <-> decoded_content <> content.
Proof.
  unfold changed, str_eq. rewrite negb_true_iff, bool_decide_eq_false. tauto.
Qed.

Lemma passes_through_inert c w :
  c <> BACKSLASH -> Forall (fun x => x <> BACKSLASH) w ->
  (forall b', hex_escape_at LOWER_U 4 (BACKSLASH :: c :: w ++ b') = None) ->
  (forall b', hex_escape_at LOWER_X 2 (BACKSLASH :: c :: w ++ b') = None) ->
  (forall b', escaped_slash_at (BACKSLASH :: c :: w ++ b') = None) ->
  passes_through (BACKSLASH :: c :: w).
Proof.
  intros Hc Hw Hu Hx Hs a b. exists (spec_decode a), (spec_decode b).
  rewrite !decode_unicode_escapes_run. repeat split. f_equal.
  change ((BACKSLASH :: c :: w) ++ b) with (BACKSLASH :: c :: w ++ b).
  change ((BACKSLASH :: c :: w) ++ spec_decode b)
    with (BACKSLASH :: c :: w ++ spec_decode b).
  now apply spec_decode_inert.
Qed.

(** A backslash before a character that is none of u, x, slash and
    backslash starts nothing. *)
Lemma passes_through_other c :
  c <> BACKSLASH -> c <> LOWER_U -> c <> LOWER_X -> c <> SLASH ->
  passes_through [BACKSLASH; c].
Proof.
  intros Hb Hu Hx Hs. apply (passes_through_inert c []); try assumption.
  - constructor.
  - intros. now apply hex_escape_at_other_marker.
  - intros. now apply hex_escape_at_other_marker.
  - intros. now apply escaped_slash_at_other.
Qed.

Lemma passes_through_alone span :
  passes_through span -> decode_unicode_escapes span = ret span.
Proof.
  intros H. destruct (H [] []) as (a' & b' & Ha & Hb & Hd).
  rewrite decode_unicode_escapes_run in Ha, Hb.
  change (spec_decode []) with (@nil N) in Ha, Hb.
  injection Ha as <-. injection Hb as <-.
  cbn [app] in Hd. now rewrite app_nil_r in Hd.
Qed.

(* ===================================================================== *)
(** * The decoder: the claims *)
(* ===================================================================== *)

(** C2: [decode_unicode_escapes] is the composition of three
    transformations in a fixed order: every backslash-u followed by
    exactly four hexadecimal digits (of either case) becomes the
    character with that value, then every backslash-x followed by exactly
    two hexadecimal digits becomes the character with that value, then
    every backslash-slash becomes a slash. It prints nothing on the way. *)
Theorem decode_is_three_passes_in_order (s : list N) :
  decode_unicode_escapes s
  = ret (replace_every escaped_slash_at
           (replace_every (hex_escape_at LOWER_X 2)
              (replace_every (hex_escape_at LOWER_U 4) s))).
Proof. apply decode_unicode_escapes_run. Qed.

(** C4: a text without a backslash is returned as it is, and the change
    flag computed from it is false. *)
Theorem no_backslash_unchanged (s : list N) :
  Forall (fun c => c <> BACKSLASH) s ->
  exists decoded,
    decode_unicode_escapes s = ret decoded /\ decoded = s /\
    changed s decoded = false.
Proof.
  intros H. exists s. rewrite decode_unicode_escapes_run.
  rewrite spec_decode_no_backslash by assumption.
  unfold changed. now rewrite str_eq_refl.
Qed.

Lemma no_backslash_unchanged_witness :
  Forall (fun c => c <> BACKSLASH) (py "plain text") /\
  exists decoded,
    decode_unicode_escapes (py "plain text") = ret decoded /\
    decoded = py "plain text" /\ changed (py "plain text") decoded = false.
Proof.
  assert (H : Forall (fun c => c <> BACKSLASH) (py "plain text"))
    by (repeat constructor; discriminate).
  split; [exact H | exact (no_backslash_unchanged (py "plain text") H)].
Defined.

(** C10: the decoded text is never longer than the input. *)
Theorem decode_never_longer (s : list N) :
  exists decoded,
    decode_unicode_escapes s = ret decoded /\
    (length decoded <= length s)%nat.
Proof.
  exists (spec_decode s). split; [apply decode_unicode_escapes_run|].
  apply spec_decode_length.
Qed.

(** The body of the decoder ends with [Return] whatever the two
    substitutions do. *)
Lemma decode_with_returns re_sub_u re_sub_x text :
  exists out decoded,
    decode_unicode_escapes_with re_sub_u re_sub_x text = (out, Return decoded).
Proof.
  unfold decode_unicode_escapes_with.
  assert (H1 : exists out1 d1,
    (if contains [BACKSLASH; LOWER_U] text
     then try_except (re_sub_u text)
            (fun e => do! print (WarnUnicode e) in ret text)
     else ret text) = (out1, Return d1)).
  { destruct (contains [BACKSLASH; LOWER_U] text); [|unfold ret; eauto].
    destruct (re_sub_u text) as [o [d|e]]; cbn; eauto. }
  destruct H1 as (out1 & d1 & ->). cbn [bind].
  assert (H2 : exists out2 d2,
    (if contains [BACKSLASH; LOWER_X] d1
     then try_except (re_sub_x d1)
            (fun e => do! print (WarnHex e) in ret d1)
     else ret d1) = (out2, Return d2)).
  { destruct (contains [BACKSLASH; LOWER_X] d1); [|unfold ret; eauto].
    destruct (re_sub_x d1) as [o [d|e]]; cbn; eauto. }
  destruct H2 as (out2 & d2 & ->). cbn. eauto.
Qed.

Lemma callback_caught (m : re_match) :
  try_except (let! hex_val := ret (group1 m) in
              let! n := int16 hex_val in chr n)
             (fun _ => ret (group0 m))
  = match (let! n := int16 (group1 m) in chr n) with
    | (_, Return r) => ret r
    | (_, Raise _) => ret (group0 m)
    end.
Proof.
  rewrite bind_ret_l. unfold int16.
  destruct (group1 m) as [|d ds]; [reflexivity|].
  destruct (int16_from 0 (d :: ds)) as [n|]; [|reflexivity].
  rewrite bind_ret_l. unfold chr.
  destruct (n <=? 1114111)%N; reflexivity.
Qed.

Lemma int16_from_invalid ds :
  forallb is_hex_digit ds = false -> forall acc, int16_from acc ds = None.
Proof.
  induction ds as [|d ds IH]; intros H acc; [discriminate|].
  cbn [forallb] in H. cbn [int16_from].
  destruct (is_hex_digit d) eqn:Hd.
  - destruct (hex_digit_value_spec d Hd) as [-> _]. now apply IH.
  - assert (Hnone : hex_digit_value d = None).
    { rewrite <- in_hex_class_spec in Hd.
      unfold in_hex_class in Hd. unfold hex_digit_value.
      destruct ((48 <=? d) && (d <=? 57))%N; [discriminate|].
      destruct ((97 <=? d) && (d <=? 102))%N; [discriminate|].
      destruct ((65 <=? d) && (d <=? 70))%N; [discriminate|reflexivity]. }
    now rewrite Hnone.
Qed.

(** What a callback returns, read off the digits of the match. *)
Lemma callback_explicit (m : re_match) :
  try_except (let! hex_val := ret (group1 m) in
              let! n := int16 hex_val in chr n)
             (fun _ => ret (group0 m))
  = ret (if valid_hex_literal (group1 m)
         then [hex_value (group1 m)] else group0 m).
Proof.
  rewrite bind_ret_l. unfold int16, valid_hex_literal.
  destruct (group1 m) as [|d ds]; [reflexivity|].
  destruct (forallb is_hex_digit (d :: ds)) eqn:Hhex.
  - rewrite int16_from_spec by assumption.
    change (fold_left (fun a x => (16 * a + digit_value x)%N) (d :: ds) 0%N)
      with (hex_value (d :: ds)).
    rewrite bind_ret_l. unfold chr. cbn [andb].
    destruct (hex_value (d :: ds) <=? 1114111)%N; reflexivity.
  - rewrite int16_from_invalid by assumption. reflexivity.
Qed.

Lemma replace_slash_guard d :
  (if contains [BACKSLASH; SLASH] d then replace_slash d else d)
  = replace_slash d.
Proof.
  destruct (contains [BACKSLASH; SLASH] d) eqn:G; [reflexivity|].
  now rewrite replace_slash_spec, spec_slash_pass_unguarded.
Qed.

(** The body of the decoder, for any behaviour of the two substitutions:
    what it prints and what it returns. *)
Lemma decode_with_explicit re_sub_u re_sub_x text :
  decode_unicode_escapes_with re_sub_u re_sub_x text =
  let '(out1, text1) :=
    if contains [BACKSLASH; LOWER_U] text
    then match re_sub_u text with
         | (o, Return d) => (o, d)
         | (o, Raise e) => (o ++ [WarnUnicode e], text)
         end
    else ([], text) in
  let '(out2, text2) :=
    if contains [BACKSLASH; LOWER_X] text1
    then match re_sub_x text1 with
         | (o, Return d) => (o, d)
         | (o, Raise e) => (o ++ [WarnHex e], text1)
         end
    else ([], text1) in
  (out1 ++ out2, Return (replace_slash text2)).
Proof.
  unfold decode_unicode_escapes_with.
  assert (Stage2 : forall out1 text1,
    bind (out1, Return text1)
      (fun decoded =>
         let! decoded :=
           (if contains [BACKSLASH; LOWER_X] decoded
            then try_except (re_sub_x decoded)
                   (fun e => do! print (WarnHex e) in ret decoded)
            else ret decoded) in
         let! decoded :=
           ret (if contains [BACKSLASH; SLASH] decoded
                then replace_slash decoded else decoded) in
         ret decoded)
    = let '(out2, text2) :=
        if contains [BACKSLASH; LOWER_X] text1
        then match re_sub_x text1 with
             | (o, Return d) => (o, d)
             | (o, Raise e) => (o ++ [WarnHex e], text1)
             end
        else ([], text1) in
      (out1 ++ out2, Return (replace_slash text2))).
  { intros out1 text1. cbn [bind].
    destruct (contains [BACKSLASH; LOWER_X] text1).
    - destruct (re_sub_x text1) as [o [d|e]]; cbn;
        now rewrite ?app_nil_r, replace_slash_guard.
    - cbn. now rewrite ?app_nil_r, replace_slash_guard. }
  destruct (contains [BACKSLASH; LOWER_U] text).
  - destruct (re_sub_u text) as [o [d|e]].
    + apply (Stage2 o d).
    + apply (Stage2 (o ++ [WarnUnicode e]) text).
  - apply (Stage2 [] text).
Qed.

(** C8: the decoder never raises. On every text it returns, and prints
    no warning. A callback returns one character for a literal that
    [int] and [chr] accept and the matched text for any other: the error
    is caught at that match. Whatever the two substitutions do, the body
    of the decoder returns: where a substitution raises [e], the warning
    with [e] is printed after what the substitution printed, and the
    next pass gets the text that the failed pass was given. *)
Theorem decoder_never_raises :
  (forall text, exists decoded,
      decode_unicode_escapes text = ([], Return decoded)) /\
  (forall m,
      replace_unicode m
      = ret (if valid_hex_literal (group1 m)
             then [hex_value (group1 m)] else group0 m)) /\
  (forall m,
      replace_hex m
      = ret (if valid_hex_literal (group1 m)
             then [hex_value (group1 m)] else group0 m)) /\
  (forall re_sub_u re_sub_x text, exists out decoded,
      decode_unicode_escapes_with re_sub_u re_sub_x text
      = (out, Return decoded)) /\
  (forall re_sub_u re_sub_x text,
      decode_unicode_escapes_with re_sub_u re_sub_x text =
      let '(out1, text1) :=
        if contains [BACKSLASH; LOWER_U] text
        then match re_sub_u text with
             | (o, Return d) => (o, d)
             | (o, Raise e) => (o ++ [WarnUnicode e], text)
             end
        else ([], text) in
      let '(out2, text2) :=
        if contains [BACKSLASH; LOWER_X] text1
        then match re_sub_x text1 with
             | (o, Return d) => (o, d)
             | (o, Raise e) => (o ++ [WarnHex e], text1)
             end
        else ([], text1) in
      (out1 ++ out2, Return (replace_slash text2))).
Proof.
  split; [|split; [|split; [|split]]].
  - intros text. exists (spec_decode text). apply decode_unicode_escapes_run.
  - intros m. apply callback_explicit.
  - intros m. apply callback_explicit.
  - apply decode_with_returns.
  - apply decode_with_explicit.
Qed.

(** C5: backslash-n, backslash-r and backslash-t are never interpreted
    or altered: wherever one stands in the input, it stands in the output
    between the decoded texts before and after it. The text line1,
    backslash, nline2 is returned as it is, with the change flag false. *)
Theorem control_escapes_pass_through :
  passes_through (esc "n") /\
  passes_through (esc "r") /\
  passes_through (esc "t") /\
  exists decoded,
    decode_unicode_escapes (py "line1" ++ esc "nline2") = ret decoded /\
    decoded = py "line1" ++ esc "nline2" /\
    changed (py "line1" ++ esc "nline2") decoded = false.
Proof.
  split; [|split; [|split]].
  - apply (passes_through_other 110%N); discriminate.
  - apply (passes_through_other 114%N); discriminate.
  - apply (passes_through_other 116%N); discriminate.
  - eexists. split; [apply decode_unicode_escapes_run|].
    split; vm_compute; reflexivity.
Qed.

Lemma hex_escape_at_follow marker k t :
  hex_escape_at marker k (BACKSLASH :: marker :: t) =
  if hex_digits_follow k t
  then Some ((2 + k)%nat, hex_value (take k t)) else None.
Proof.
  unfold hex_escape_at, hex_digits_follow. now rewrite !N.eqb_refl.
Qed.

(** A backslash-u that four hexadecimal digits do not follow stays, with
    the backslash-free text after it, between the decoded texts before
    and after. *)
Lemma spec_decode_keeps_unicode_marker a w b :
  Forall (fun c => c <> BACKSLASH) w ->
  hex_digits_follow 4 (w ++ b) = false ->
  spec_decode (a ++ BACKSLASH :: LOWER_U :: w ++ b)
  = spec_decode a ++ BACKSLASH :: LOWER_U :: w ++ spec_decode b.
Proof.
  intros Hw Hno. unfold spec_decode, spec_unicode_pass, spec_hex_pass,
    spec_slash_pass.
  rewrite (replace_every_inert (hex_escape_at LOWER_U 4));
    [|apply hex_escape_at_span
     |intros; now apply hex_escape_at_sync
     |discriminate|assumption
     |now rewrite hex_escape_at_follow, Hno].
  rewrite (replace_every_inert (hex_escape_at LOWER_X 2));
    [|apply hex_escape_at_span
     |intros; now apply hex_escape_at_sync
     |discriminate|assumption
     |now apply hex_escape_at_other_marker].
  rewrite (replace_every_inert escaped_slash_at);
    [|apply escaped_slash_at_span
     |intros; now apply escaped_slash_at_sync
     |discriminate|assumption
     |now apply escaped_slash_at_other].
  reflexivity.
Qed.

(** The same for a backslash-x that two hexadecimal digits do not follow
    once the first pass has run on the text after it. *)
Lemma spec_decode_keeps_hex_marker a w b :
  Forall (fun c => c <> BACKSLASH) w ->
  hex_digits_follow 2 (w ++ spec_unicode_pass b) = false ->
  spec_decode (a ++ BACKSLASH :: LOWER_X :: w ++ b)
  = spec_decode a ++ BACKSLASH :: LOWER_X :: w ++ spec_decode b.
Proof.
  intros Hw Hno. unfold spec_decode.
  unfold spec_unicode_pass at 1.
  rewrite (replace_every_inert (hex_escape_at LOWER_U 4));
    [|apply hex_escape_at_span
     |intros; now apply hex_escape_at_sync
     |discriminate|assumption
     |now apply hex_escape_at_other_marker].
  fold spec_unicode_pass.
  unfold spec_hex_pass at 1.
  rewrite (replace_every_inert (hex_escape_at LOWER_X 2));
    [|apply hex_escape_at_span
     |intros; now apply hex_escape_at_sync
     |discriminate|assumption
     |now rewrite hex_escape_at_follow, Hno].
  fold spec_hex_pass.
  unfold spec_slash_pass at 1.
  rewrite (replace_every_inert escaped_slash_at);
    [|apply escaped_slash_at_span
     |intros; now apply escaped_slash_at_sync
     |discriminate|assumption
     |now apply escaped_slash_at_other].
  reflexivity.
Qed.

(** C6, as the code has it: a backslash-u that four hexadecimal digits
    do not follow stays in place together with the backslash-free text
    [w] after it, wherever it stands: the output is the decoded text
    before, the span, the decoded text after. The same holds for a
    backslash-x that two hexadecimal digits do not follow once the first
    pass has run on the text [b] behind the span ([b1] is what that pass
    makes of [b]). Alone, such a span is returned unchanged. *)
Theorem malformed_escape_kept (a w b b1 : list N) :
  Forall (fun c => c <> BACKSLASH) w ->
  pass_of UnicodeEscape b = ret b1 ->
  (hex_digits_follow 4 (w ++ b) = false ->
   exists a' b',
     decode_unicode_escapes a = ret a' /\
     decode_unicode_escapes b = ret b' /\
     decode_unicode_escapes (a ++ BACKSLASH :: LOWER_U :: w ++ b)
     = ret (a' ++ BACKSLASH :: LOWER_U :: w ++ b')) /\
  (hex_digits_follow 2 (w ++ b1) = false ->
   exists a' b',
     decode_unicode_escapes a = ret a' /\
     decode_unicode_escapes b = ret b' /\
     decode_unicode_escapes (a ++ BACKSLASH :: LOWER_X :: w ++ b)
     = ret (a' ++ BACKSLASH :: LOWER_X :: w ++ b')) /\
  (hex_digits_follow 4 w = false ->
   decode_unicode_escapes (BACKSLASH :: LOWER_U :: w)
   = ret (BACKSLASH :: LOWER_U :: w) /\
   changed (BACKSLASH :: LOWER_U :: w) (BACKSLASH :: LOWER_U :: w) = false) /\
  (hex_digits_follow 2 w = false ->
   decode_unicode_escapes (BACKSLASH :: LOWER_X :: w)
   = ret (BACKSLASH :: LOWER_X :: w) /\
   changed (BACKSLASH :: LOWER_X :: w) (BACKSLASH :: LOWER_X :: w) = false).
Proof.
  intros Hw Hb1. cbn [pass_of] in Hb1. rewrite re_sub_unicode_spec in Hb1.
  injection Hb1 as <-.
  split; [|split; [|split]].
  - intros Hno. exists (spec_decode a), (spec_decode b).
    rewrite !decode_unicode_escapes_run. repeat split. f_equal.
    now apply spec_decode_keeps_unicode_marker.
  - intros Hno. exists (spec_decode a), (spec_decode b).
    rewrite !decode_unicode_escapes_run. repeat split. f_equal.
    now apply spec_decode_keeps_hex_marker.
  - intros Hno. split; [|unfold changed; now rewrite str_eq_refl].
    rewrite decode_unicode_escapes_run. f_equal.
    pose proof (spec_decode_keeps_unicode_marker [] w [] Hw) as H.
    change (spec_unicode_pass []) with (@nil N) in H.
    change (spec_decode []) with (@nil N) in H.
    cbn [app] in H. rewrite !app_nil_r in H. now apply H.
  - intros Hno. split; [|unfold changed; now rewrite str_eq_refl].
    rewrite decode_unicode_escapes_run. f_equal.
    pose proof (spec_decode_keeps_hex_marker [] w [] Hw) as H.
    change (spec_unicode_pass []) with (@nil N) in H.
    change (spec_decode []) with (@nil N) in H.
    cbn [app] in H. rewrite !app_nil_r in H. now apply H.
Qed.

Lemma malformed_escape_kept_witness :
  (Forall (fun c => c <> BACKSLASH) (py "4") /\
   pass_of UnicodeEscape (esc "n") = ret (esc "n") /\
   hex_digits_follow 4 (py "4" ++ esc "n") = false /\
   hex_digits_follow 2 (py "4" ++ esc "n") = false /\
   decode_unicode_escapes (py "a" ++ BACKSLASH :: LOWER_U :: py "4" ++ esc "n")
   = ret (py "a" ++ BACKSLASH :: LOWER_U :: py "4" ++ esc "n") /\
   decode_unicode_escapes (py "a" ++ BACKSLASH :: LOWER_X :: py "4" ++ esc "n")
   = ret (py "a" ++ BACKSLASH :: LOWER_X :: py "4" ++ esc "n")) /\
  (Forall (fun c => c <> BACKSLASH) (py "ZZZZ") /\
   hex_digits_follow 4 (py "ZZZZ") = false /\
   decode_unicode_escapes (esc "uZZZZ") = ret (esc "uZZZZ")).
Proof.
  assert (H4 : Forall (fun c => c <> BACKSLASH) (py "4"))
    by (repeat constructor; discriminate).
  assert (HZ : Forall (fun c => c <> BACKSLASH) (py "ZZZZ"))
    by (repeat constructor; discriminate).
  assert (Hn : pass_of UnicodeEscape (esc "n") = ret (esc "n"))
    by (vm_compute; reflexivity).
  assert (He : pass_of UnicodeEscape [] = ret []) by reflexivity.
  destruct (malformed_escape_kept (py "a") (py "4") (esc "n") (esc "n") H4 Hn)
    as (Hu & Hx & _ & _).
  destruct (Hu eq_refl) as (a1 & b1 & Ha1 & Hb1 & Hd1).
  destruct (Hx eq_refl) as (a2 & b2 & Ha2 & Hb2 & Hd2).
  destruct (malformed_escape_kept [] (py "ZZZZ") [] [] HZ He)
    as (_ & _ & Halone & _).
  destruct (Halone eq_refl) as [Hz _].
  vm_compute in Ha1, Hb1, Ha2, Hb2.
  injection Ha1 as <-. injection Hb1 as <-.
  injection Ha2 as <-. injection Hb2 as <-.
  repeat split; assumption.
Defined.

(** C6 as stated fails: backslash, x, 4, backslash is a backslash-x not
    followed by two hexadecimal digits, yet before u0031 it is consumed:
    the first pass turns the text into backslash x41, the second into A;
    and backslash, u, backslash, x41 loses its last four characters. *)
Lemma malformed_escape_altered :
  forallb is_hex_digit (py "4" ++ [BACKSLASH]) = false /\
  decode_unicode_escapes ((esc "x4" ++ [BACKSLASH]) ++ py "u0031")
  = ret (py "A") /\
  ~ passes_through (esc "x4" ++ [BACKSLASH]) /\
  forallb is_hex_digit (esc "x41") = false /\
  decode_unicode_escapes (esc "u" ++ esc "x41") = ret (esc "uA") /\
  decode_unicode_escapes (esc "u" ++ esc "x41") <> ret (esc "u" ++ esc "x41").
Proof.
  split; [reflexivity|]. split; [vm_compute; reflexivity|].
  split; [|split; [reflexivity|split; [vm_compute; reflexivity|discriminate]]].
  intros H. destruct (H [] (py "u0031")) as (a' & b' & Ha & Hb & Hd).
  vm_compute in Ha. injection Ha as <-.
  vm_compute in Hd. discriminate Hd.
Qed.

Lemma pass_of_spec f s : pass_of f s = ret (replace_every (occurrence_of f) s).
Proof.
  destruct f; cbn [pass_of occurrence_of].
  - apply re_sub_unicode_spec.
  - apply re_sub_hex_spec.
  - f_equal. apply replace_slash_spec.
Qed.

Lemma occurrence_of_span f s n r :
  occurrence_of f s = Some (n, r) ->
  exists t, s = BACKSLASH :: t /\ (0 < n <= S (length t))%nat.
Proof.
  destruct f; [apply hex_escape_at_span..|apply escaped_slash_at_span].
Qed.

Lemma occurrence_of_sync f a b :
  a <> [] -> occurrence_of f (a ++ BACKSLASH :: b) = occurrence_of f a.
Proof.
  destruct f; cbn [occurrence_of].
  - now apply hex_escape_at_sync.
  - now apply hex_escape_at_sync.
  - apply escaped_slash_at_sync.
Qed.

(** C1, as the code has it: each family is scanned exactly once per
    call, in the order backslash-u, backslash-x, backslash-slash. The
    pass of a family replaces an occurrence [s] by its character [r] and
    goes on behind the occurrence, so that [r] is not scanned again by
    the pass that produced it; the decoder is the three passes one after
    the other, each run once on the output of the one before. *)
Theorem each_family_scanned_once
    (f : family) (a s : list N) (n : nat) (r : N) :
  occurrence_of f s = Some (n, r) ->
  (exists a' b',
      pass_of f a = ret a' /\
      pass_of f (drop n s) = ret b' /\
      pass_of f (a ++ s) = ret (a' ++ r :: b')) /\
  (exists t1 t2 t3,
      pass_of UnicodeEscape (a ++ s) = ret t1 /\
      pass_of HexEscape t1 = ret t2 /\
      pass_of EscapedSlash t2 = ret t3 /\
      decode_unicode_escapes (a ++ s) = ret t3).
Proof.
  intros E. split.
  - exists (replace_every (occurrence_of f) a),
           (replace_every (occurrence_of f) (drop n s)).
    rewrite !pass_of_spec. repeat split. f_equal.
    apply replace_every_occurrence;
      [apply occurrence_of_span | apply occurrence_of_sync | assumption].
  - exists (spec_unicode_pass (a ++ s)),
           (spec_hex_pass (spec_unicode_pass (a ++ s))),
           (spec_decode (a ++ s)).
    rewrite !pass_of_spec. repeat split.
    apply decode_unicode_escapes_run.
Qed.

Lemma each_family_scanned_once_witness :
  occurrence_of UnicodeEscape (esc "u005cu0041") = Some (6%nat, BACKSLASH) /\
  pass_of UnicodeEscape (esc "u005cu0041") = ret (esc "u0041") /\
  decode_unicode_escapes (esc "u005cu0041") = ret (esc "u0041").
Proof.
  destruct (each_family_scanned_once UnicodeEscape [] (esc "u005cu0041")
              6 BACKSLASH eq_refl)
    as [(a' & b' & Ha & Hb & Hab) (t1 & t2 & t3 & H1 & H2 & H3 & Hd)].
  change ([] ++ esc "u005cu0041") with (esc "u005cu0041") in Hab, H1, Hd.
  split; [reflexivity|]. split.
  - rewrite Hab. vm_compute in Ha, Hb.
    injection Ha as <-. injection Hb as <-. reflexivity.
  - rewrite Hd. vm_compute in H1. injection H1 as <-.
    vm_compute in H2. injection H2 as <-.
    vm_compute in H3. injection H3 as <-. reflexivity.
Defined.

(** C1 as stated fails: the backslash that the first pass makes of
    backslash u005c is consumed by the second pass when x41 follows, and
    by the third when a slash follows. *)
Lemma produced_backslash_reinterpreted :
  pass_of UnicodeEscape (esc "u005c" ++ py "x41") = ret (esc "x41") /\
  pass_of HexEscape (esc "x41") = ret (py "A") /\
  decode_unicode_escapes (esc "u005c" ++ py "x41") = ret (py "A") /\
  ~ replaced_independently (esc "u005c") BACKSLASH /\
  pass_of UnicodeEscape (esc "u005c" ++ py "/") = ret (esc "/") /\
  decode_unicode_escapes (esc "u005c" ++ py "/") = ret (py "/").
Proof.
  split; [vm_compute; reflexivity|].
  split; [vm_compute; reflexivity|].
  split; [vm_compute; reflexivity|].
  split; [|split; vm_compute; reflexivity].
  intros H. destruct (H [] (py "x41")) as (a' & b' & Ha & Hb & Hd).
  vm_compute in Ha. injection Ha as <-.
  vm_compute in Hd. discriminate Hd.
Qed.

(* ===================================================================== *)
(** * File names *)
(* ===================================================================== *)

Lemma startswith_app m b : startswith m (m ++ b) = true.
Proof.
  induction m as [|x m IH]; [reflexivity|].
  cbn [app startswith]. now rewrite N.eqb_refl, IH.
Qed.

Lemma contains_app m a b : contains m (a ++ m ++ b) = true.
Proof.
  induction a as [|x a IH].
  - cbn [app]. destruct (m ++ b) eqn:E; cbn [contains];
      rewrite <- E, startswith_app; reflexivity.
  - cbn [app contains]. rewrite IH. apply orb_true_r.
Qed.

Lemma rfind_Some c s i :
  rfind c s = Some i ->
  exists pre post,
    s = pre ++ c :: post /\ length pre = i /\ Forall (fun x => x <> c) post.
Proof.
  revert i. induction s as [|x t IH]; intros i; [discriminate|].
  cbn [rfind]. destruct (rfind c t) as [j|] eqn:E.
  - intros [= <-]. destruct (IH j eq_refl) as (pre & post & -> & <- & Hpost).
    now exists (x :: pre), post.
  - destruct (N.eqb_spec x c) as [->|]; [|discriminate].
    intros [= <-]. exists [], t. repeat split.
    clear IH. induction t as [|y t IHt]; [constructor|].
    cbn [rfind] in E. destruct (rfind c t); [discriminate|].
    destruct (N.eqb_spec y c); [discriminate|]. constructor; auto.
Qed.

Lemma rfind_no_occurrence c s :
  Forall (fun x => x <> c) s -> rfind c s = None.
Proof.
  induction 1 as [|x t Hx _ IH]; [reflexivity|].
  cbn [rfind]. rewrite IH. now destruct (N.eqb_spec x c).
Qed.

Lemma rfind_app_none c a b :
  Forall (fun x => x <> c) b -> rfind c (a ++ b) = rfind c a.
Proof.
  intros Hb. induction a as [|x a IH].
  - cbn [app]. now rewrite rfind_no_occurrence.
  - cbn [app rfind]. now rewrite IH.
Qed.

Lemma rfind_last c pre post :
  Forall (fun x => x <> c) post -> rfind c (pre ++ c :: post) = Some (length pre).
Proof.
  intros Hpost. induction pre as [|x pre IH].
  - cbn [app rfind length]. rewrite rfind_no_occurrence by assumption.
    now rewrite N.eqb_refl.
  - cbn [app rfind length]. now rewrite IH.
Qed.

Lemma DECODED_MARKER_no_dot : Forall (fun x => x <> DOT) DECODED_MARKER.
Proof. repeat constructor; discriminate. Qed.

Lemma splits_at_Some name i :
  splits_at name = Some i ->
  exists pre y post,
    name = pre ++ DOT :: y :: post /\ length pre = i /\ pre <> [] /\
    Forall (fun x => x <> DOT) (y :: post).
Proof.
  unfold splits_at. destruct (rfind DOT name) as [j|] eqn:E; [|discriminate].
  destruct (rfind_Some _ _ _ E) as (pre & post & -> & <- & Hpost).
  rewrite length_app. cbn [length].
  destruct (Nat.ltb_spec 0 (length pre)) as [Hpos|]; [|discriminate].
  destruct (Nat.ltb_spec (length pre) (length pre + S (length post) - 1))
    as [Hlt|]; [|discriminate].
  cbn [andb]. intros [= <-].
  destruct post as [|y post]; [cbn [length] in Hlt; lia|].
  exists pre, y, post. repeat split; try assumption.
  intros ->. cbn [length] in Hpos. lia.
Qed.

Lemma splits_at_intro pre y post :
  pre <> [] -> Forall (fun x => x <> DOT) (y :: post) ->
  splits_at (pre ++ DOT :: y :: post) = Some (length pre).
Proof.
  intros Hpre Hpost. unfold splits_at. rewrite rfind_last by assumption.
  rewrite length_app. cbn [length].
  destruct (Nat.ltb_spec 0 (length pre)) as [|Hz].
  - destruct (Nat.ltb_spec (length pre)
                (length pre + S (S (length post)) - 1)); [reflexivity|lia].
  - destruct pre; [congruence|cbn [length] in Hz; lia].
Qed.

Lemma splits_at_None name :
  splits_at name = None ->
  rfind DOT name = None \/ rfind DOT name = Some 0%nat \/ last name = Some DOT.
Proof.
  unfold splits_at. destruct (rfind DOT name) as [j|] eqn:E; [|now left].
  destruct (rfind_Some _ _ _ E) as (pre & post & -> & <- & Hpost).
  rewrite length_app. cbn [length].
  destruct (Nat.ltb_spec 0 (length pre)) as [Hpos|Hz].
  - destruct (Nat.ltb_spec (length pre) (length pre + S (length post) - 1))
      as [|Hge]; [discriminate|].
    intros _. right. right.
    destruct post as [|y post]; [apply last_snoc|cbn [length] in Hge; lia].
  - intros _. right. left. f_equal. lia.
Qed.

(** pathlib reads the stem of the output name as the input's stem
    followed by the marker, or as the whole output name, unless the input
    name ends in a dot. *)
Lemma stem_new_file_name name :
  last name <> Some DOT ->
  stem (new_file_name name) = stem name ++ DECODED_MARKER \/
  stem (new_file_name name) = name ++ DECODED_MARKER.
Proof.
  intros Hlast. destruct (splits_at name) as [i|] eqn:E.
  - left. destruct (splits_at_Some _ _ E)
      as (pre & y & post & Hname & Hlen & Hpre & Hpost).
    assert (Hstem : stem name = pre).
    { unfold stem. rewrite E, Hname, <- Hlen. apply take_app_length. }
    assert (Hsuffix : suffix name = DOT :: y :: post).
    { unfold suffix. rewrite E, Hname, <- Hlen. apply drop_app_length. }
    unfold new_file_name. rewrite Hstem, Hsuffix.
    replace (pre ++ DECODED_MARKER ++ DOT :: y :: post)
      with ((pre ++ DECODED_MARKER) ++ DOT :: y :: post)
      by now rewrite <- app_assoc.
    unfold stem. rewrite splits_at_intro; [apply take_app_length| |assumption].
    destruct pre; [congruence|discriminate].
  - right. unfold new_file_name, stem at 2, suffix. rewrite E, app_nil_r.
    assert (Hnone : splits_at (name ++ DECODED_MARKER) = None).
    { unfold splits_at.
      rewrite rfind_app_none by apply DECODED_MARKER_no_dot.
      destruct (splits_at_None _ E) as [-> | [-> | Hdot]];
        [reflexivity|reflexivity|contradiction]. }
    unfold stem. now rewrite Hnone.
Qed.

Lemma stem_suffix name : stem name ++ suffix name = name.
Proof.
  unfold stem, suffix. destruct (splits_at name); [apply take_drop|apply app_nil_r].
Qed.

Lemma new_file_name_other name : new_file_name name <> name.
Proof.
  intros H. apply (f_equal length) in H. unfold new_file_name in H.
  rewrite <- (stem_suffix name) in H at 3. rewrite !length_app in H.
  cbn in H. lia.
Qed.

(** C9, as the code has it: the marker that the selection looks for is
    underscore-decoded. For every input name that does not end in a dot,
    the stem of the output name contains it, and [main] never selects
    the output again, whatever the script is called and whatever the
    directory holds. *)
Theorem output_name_is_excluded (name : list N) :
  last name <> Some DOT ->
  new_file_name name = stem name ++ py "_decoded" ++ suffix name /\
  contains (py "_decoded") (stem (new_file_name name)) = true /\
  forall script w, selected script w (new_file_name name) = false.
Proof.
  intros Hlast. split; [reflexivity|].
  assert (H : contains DECODED_MARKER (stem (new_file_name name)) = true).
  { destruct (stem_new_file_name name Hlast) as [-> | ->].
    - rewrite <- (app_nil_r DECODED_MARKER) at 2. apply contains_app.
    - rewrite <- (app_nil_r DECODED_MARKER) at 2. apply contains_app. }
  split; [exact H|].
  intros script w. unfold selected. rewrite H.
  now destruct (str_eq (new_file_name name) script).
Qed.

Lemma output_name_is_excluded_witness :
  last (py "a.json") <> Some DOT /\
  new_file_name (py "a.json") = py "a_decoded.json" /\
  contains (py "_decoded") (stem (py "a_decoded.json")) = true /\
  forall script w, selected script w (py "a_decoded.json") = false.
Proof.
  assert (Hlast : last (py "a.json") <> Some DOT) by discriminate.
  destruct (output_name_is_excluded (py "a.json") Hlast) as (Hname & Hin & Hsel).
  split; [exact Hlast|]. split; [reflexivity|]. split; [exact Hin|exact Hsel].
Defined.

(** C9 as stated fails: the stem of the output name for a.json is
    a_decoded, which does not contain hyphen-decoded; the selection does
    not look for that text either. *)
Lemma hyphen_marker_absent :
  new_file_name (py "a.json") = py "a_decoded.json" /\
  stem (py "a_decoded.json") = py "a_decoded" /\
  contains (py "-decoded") (stem (new_file_name (py "a.json"))) = false /\
  DECODED_MARKER <> py "-decoded".
Proof. repeat split; try reflexivity. discriminate. Qed.

(** An input name that ends in a dot has an empty suffix for pathlib,
    and the dot starts the suffix of the output name: the stem of the
    output carries no marker and a later run selects the output. *)
Example trailing_dot_output_selected :
  new_file_name (py "a.") = py "a._decoded" /\
  stem (py "a._decoded") = py "a" /\
  selected (py "unicode_decoder.py")
    {| files := {[ py "a._decoded" := written_file (py "A") ]};
       write_error := None |}
    (py "a._decoded") = true.
Proof. repeat split; vm_compute; reflexivity. Qed.

(* ===================================================================== *)
(** * The pipeline: the claims *)
(* ===================================================================== *)

(** C7: for a file that is read and a directory that can be written,
    the change flag is true exactly when the decoded text differs from
    the content; then the decoded text is written to the sibling named
    stem, underscore-decoded, suffix, and the file is reported as done;
    otherwise nothing is written and the file is reported as skipped. *)
Theorem process_file_writes_iff_changed
    (w : world) (file_path : list N) (f : file) (content : list N) :
  files w !! file_path = Some f ->
  read_text f = Return content ->
  write_error w = None ->
  exists decoded_content,
    decode_unicode_escapes content = ret decoded_content /\
    (changed content decoded_content = true <-> decoded_content <> content) /\
    process_file file_path w =
    if changed content decoded_content
    then
      let new_file_path := stem file_path ++ py "_decoded" ++ suffix file_path in
      (([ReportOk new_file_path (getsize f)
                  (getsize (written_file decoded_content))],
        Return true),
       {| files := <[new_file_path := written_file decoded_content]> (files w);
          write_error := None |})
    else (([ReportSkip], Return false), w).
Proof.
  intros Hfile Hread Hwrite. exists (spec_decode content).
  split; [apply decode_unicode_escapes_run|].
  split; [apply changed_spec|].
  unfold process_file, detect_encoding, io_try_except, io_bind, read_file,
    io_print, io_lift, io_ret.
  rewrite Hfile, Hread. cbn [ret app]. rewrite Hfile, Hread. cbn [ret app].
  rewrite decode_unicode_escapes_run. unfold changed. cbn [ret bind app].
  destruct (str_eq (spec_decode content) content); cbn [negb]; [reflexivity|].
  unfold write_file. rewrite Hwrite. cbn [ret app].
  unfold os_path_getsize. cbn [files].
  rewrite lookup_insert_ne by apply new_file_name_other.
  rewrite Hfile. cbn [ret app files]. rewrite lookup_insert_eq. reflexivity.
Qed.

Lemma process_file_writes_iff_changed_witness :
  process_file (py "a.json")
    {| files := {[ py "a.json" :=
                     {| read_text := Return (esc "u0041" ++ esc "/b");
                        getsize := 9; sniffs_as_text := true |} ]};
       write_error := None |}
  = (([ReportOk (py "a_decoded.json") 9 3], Return true),
     {| files := <[ py "a_decoded.json" := written_file (py "A/b") ]>
                   {[ py "a.json" :=
                        {| read_text := Return (esc "u0041" ++ esc "/b");
                           getsize := 9; sniffs_as_text := true |} ]};
        write_error := None |}).
Proof.
  destruct (process_file_writes_iff_changed
              {| files := {[ py "a.json" :=
                               {| read_text := Return (esc "u0041" ++ esc "/b");
                                  getsize := 9; sniffs_as_text := true |} ]};
                 write_error := None |}
              (py "a.json")
              {| read_text := Return (esc "u0041" ++ esc "/b");
                 getsize := 9; sniffs_as_text := true |}
              (esc "u0041" ++ esc "/b")
              (lookup_singleton_eq _ _) eq_refl eq_refl)
    as (decoded & Hdec & _ & Hrun).
  vm_compute in Hdec. injection Hdec as <-. exact Hrun.
Defined.

Lemma process_file_read_failure w file_path f e :
  files w !! file_path = Some f -> read_text f = Raise e ->
  process_file file_path w = (([ReportError e], Return false), w).
Proof.
  intros Hfile Hread.
  unfold process_file, detect_encoding, io_try_except, io_bind, read_file.
  now rewrite Hfile, Hread.
Qed.

(** [process_file] hands [main] a boolean, so the loop never reaches the
    branch that adds to [error_count]. *)
Lemma process_all_error_count files_to_process :
  forall t w out t' w',
    process_all files_to_process t w = ((out, Return t'), w') ->
    error_count t' = error_count t.
Proof.
  induction files_to_process as [|file_path rest IH]; intros t w out t' w'.
  - intros [= _ <- _]. reflexivity.
  - cbn [process_all]. unfold io_bind.
    destruct (process_file file_path w) as [[o [b|e]] w1]; [|discriminate].
    destruct (process_all rest (count (PyBool b) t) w1)
      as [[o' [t''|e]] w2] eqn:E; [|discriminate].
    intros [= _ <- _]. rewrite (IH _ _ _ _ _ E). now destruct b.
Qed.

(** C3, at a failing input: a file that cannot be read, and a changed
    file in a directory that cannot be written, are each reported as an
    error, and each is counted as skipped: the summary shows one skipped
    file and no error. *)
Theorem failure_counted_as_skipped :
  main (py "unicode_decoder.py")
    {| files := {[ py "a.txt" :=
                     {| read_text := Raise (OSError "Permission denied");
                        getsize := 6; sniffs_as_text := false |} ]};
       write_error := None |}
  = (([ReportError (OSError "Permission denied"); Summary 0 1 0], Return tt),
     {| files := {[ py "a.txt" :=
                      {| read_text := Raise (OSError "Permission denied");
                         getsize := 6; sniffs_as_text := false |} ]};
        write_error := None |}) /\
  main (py "unicode_decoder.py")
    {| files := {[ py "b.txt" :=
                     {| read_text := Return (esc "u0041");
                        getsize := 6; sniffs_as_text := true |} ]};
       write_error := Some (OSError "Read-only file system") |}
  = (([ReportError (OSError "Read-only file system"); Summary 0 1 0],
      Return tt),
     {| files := {[ py "b.txt" :=
                      {| read_text := Return (esc "u0041");
                         getsize := 6; sniffs_as_text := true |} ]};
        write_error := Some (OSError "Read-only file system") |}).
Proof. split; vm_compute; reflexivity. Qed.

(** The run of the specification's example: a.json is decoded into
    a_decoded.json, b.bin is not selected, and the summary counts one
    processed file. *)
Example end_to_end :
  fst (main (py "unicode_decoder.py")
         {| files := {[ py "a.json" :=
                          {| read_text := Return (py "{k:" ++ esc "u0041" ++ esc "/b}");
                             getsize := 13; sniffs_as_text := true |};
                        py "b.bin" :=
                          {| read_text := Return [0%N; 1%N];
                             getsize := 2; sniffs_as_text := false |} ]};
            write_error := None |})
  = ([ReportOk (py "a_decoded.json") 13 7; Summary 1 0 0], Return tt).
Proof. vm_compute. reflexivity. Qed.
